(** * SVGCreator: the shape/document model of [svg.cpp] and its serialization

    The development embeds namespace [Svg] of [svg.cpp]: the value types
    ([Point], [Rgb], [Color]), the CRTP base [Figure<Derived>] with its
    chained setters, the three shapes with their stream inserters, and
    [Document] with [Add] and [Render].

    Conventions of the embedding.
    - An [ostream] is the sequence of characters written to it so far, in
      its default formatting state (the code never changes a flag, a width
      or the precision); [operator<<] appends.
    - A [double] is an IEEE-754 binary64 value, a NaN with its sign bit;
      the default inserter of a [double] formats as [printf]'s [%g] with
      precision 6.
    - A data member that no constructor initializes holds an indeterminate
      value ([Indeterminate]); it may be copied with its object, and reading
      it for output is undefined behaviour, which the inserters report as
      [None].
    - Objects that are mutated through [this] live in a store ([gmap]) and
      are named by their address. *)

From Stdlib Require Import ZArith NArith List Bool Ascii String Lia.
From Stdlib Require Import DecimalString DecimalPos DecimalN.
From Stdlib Require Import SpecFloat.
From stdpp Require Import gmap.
Import ListNotations.
Open Scope string_scope.

(* ===================================================================== *)
(** ** Output streams and the inserters of the built-in types *)

Module Stream.

(** The characters written so far. *)
Definition ostream := string.

(** [operator<<], overloaded per inserted type. *)
Class Inserter (A : Type) := insertion : ostream -> A -> ostream.

#[global] Instance insert_string : Inserter string :=
  fun stream s => stream ++ s.

#[global] Instance insert_char : Inserter ascii :=
  fun stream c => stream ++ String c EmptyString.

(** Unsigned integers are written in decimal. *)
Definition dec (n : N) : string := NilZero.string_of_uint (N.to_uint n).

(** [ushort] and [uint32_t]: the value together with its width. *)
Definition ushort_max : N := 65535.
Definition uint32_max : N := 4294967295.

Record ushort := mk_ushort { ushort_val : N }.
Record uint32_t := mk_uint32 { uint32_val : N }.

(** Conversion of an integer to the unsigned type: reduction modulo
    [2^16], respectively [2^32]. *)
Definition to_ushort (z : Z) : ushort := mk_ushort (Z.to_N (z mod 65536)).
Definition to_uint32 (z : Z) : uint32_t := mk_uint32 (Z.to_N (z mod 4294967296)).

#[global] Instance insert_ushort : Inserter ushort :=
  fun stream v => stream ++ dec (ushort_val v).

#[global] Instance insert_uint32 : Inserter uint32_t :=
  fun stream v => stream ++ dec (uint32_val v).

End Stream.

Export Stream.

Notation "stream << a" := (insertion stream a)
  (at level 62, left associativity, only parsing).

(* ===================================================================== *)
(** ** Doubles and their default formatting *)

Module Double.

(** A binary64 value: a zero, an infinity or a NaN, each with its sign
    bit, or the number [(-1)^s * m * 2^e].  The payload of a NaN is not
    kept: the inserter does not write it. *)
Inductive double :=
| Zero (s : bool)
| Infinity (s : bool)
| NaN (s : bool)
| Finite (s : bool) (m : positive) (e : Z).

Definition prec : Z := 53.
Definition emax : Z := 1024.

(** An integer literal converted to [double] (round to nearest even).
    The rounding of an integer is never a NaN. *)
Definition of_Z (z : Z) : double :=
  match binary_normalize prec emax z 0 false with
  | S754_zero s => Zero s
  | S754_infinity s => Infinity s
  | S754_nan => NaN false
  | S754_finite s m e => Finite s m e
  end.

Definition zero : double := Zero false.
Definition one : double := of_Z 1.

(** [num/den >= 10^k], for positive [num] and [den]. *)
Definition ge_pow10 (num den k : Z) : bool :=
  if (0 <=? k)%Z then (den * 10 ^ k <=? num)%Z
  else (den <=? num * 10 ^ (- k))%Z.

(** The decimal exponent of [num/den] is the largest [x] with
    [10^x <= num/den].  It is searched from an estimate taken from the
    binary logarithms ([log10 2] is about [0.30103]): downwards while
    [10^x] is too large, then upwards while [10^(x+1)] still fits. *)
Fixpoint exponent_down (fuel : nat) (num den x : Z) : Z :=
  match fuel with
  | O => x
  | S fuel' =>
      if ge_pow10 num den x then x
      else exponent_down fuel' num den (x - 1)
  end.

Fixpoint exponent_up (fuel : nat) (num den x : Z) : Z :=
  match fuel with
  | O => x
  | S fuel' =>
      if ge_pow10 num den (x + 1) then exponent_up fuel' num den (x + 1)
      else x
  end.

Definition dec_exponent (num den : Z) : Z :=
  let x0 := ((Z.log2 num - Z.log2 den) * 30103 / 100000)%Z in
  exponent_up 8 num den (exponent_down 8 num den x0).

(** [num/den] rounded to the nearest integer, ties to even. *)
Definition round_half_even (num den : Z) : Z :=
  let q := (num / den)%Z in
  let r := (num mod den)%Z in
  match (2 * r ?= den)%Z with
  | Lt => q
  | Gt => (q + 1)%Z
  | Eq => if Z.even q then q else (q + 1)%Z
  end.

(** [num/den * 10^k] rounded to the nearest integer, ties to even. *)
Definition scaled_round (num den k : Z) : Z :=
  if (0 <=? k)%Z then round_half_even (num * 10 ^ k) den
  else round_half_even num (den * 10 ^ (- k)).

(** The six significant decimal digits of [num/den] and its decimal
    exponent after rounding. *)
Definition significand6 (num den : Z) : Z * Z :=
  let x := dec_exponent num den in
  let d := scaled_round num den (5 - x) in
  if (d =? 1000000)%Z then (100000, x + 1)%Z else (d, x).

Fixpoint strip_zeros_rev (l : list ascii) : list ascii :=
  match l with
  | "0"%char :: l' => strip_zeros_rev l'
  | _ => l
  end.

(** Trailing zeros removed. *)
Definition strip_trailing_zeros (s : string) : string :=
  string_of_list_ascii (rev (strip_zeros_rev (rev (list_ascii_of_string s)))).

Fixpoint zeros (n : nat) : string :=
  match n with
  | O => EmptyString
  | S n' => "0" ++ zeros n'
  end.

(** A fractional part, written after a point unless it is empty. *)
Definition with_fraction (int frac : string) : string :=
  match strip_trailing_zeros frac with
  | EmptyString => int
  | f => int ++ "." ++ f
  end.

(** The exponent of the scientific style: a sign and at least two digits. *)
Definition exponent_text (x : Z) : string :=
  let a := Z.to_N (Z.abs x) in
  (if (x <? 0)%Z then "e-" else "e+") ++
  (if (a <? 10)%N then "0" ++ dec a else dec a).

(** [%g] with precision 6 of a positive [num/den]: fixed notation when the
    decimal exponent [x] satisfies [-4 <= x < 6], scientific otherwise;
    trailing zeros of the fraction are dropped. *)
Definition format_g_pos (num den : Z) : string :=
  let '(d, x) := significand6 num den in
  let ds := dec (Z.to_N d) in
  if ((x <? -4) || (6 <=? x))%Z then
    with_fraction (substring 0 1 ds) (substring 1 5 ds) ++ exponent_text x
  else if (0 <=? x)%Z then
    let i := S (Z.to_nat x) in
    with_fraction (substring 0 i ds) (substring i (6 - i) ds)
  else
    with_fraction "0" (zeros (Z.to_nat (- x - 1)) ++ ds).

Definition sign_text (s : bool) : string := if s then "-" else EmptyString.

(** The text of a [double] under the default stream flags. *)
Definition show (d : double) : string :=
  match d with
  | Zero s => sign_text s ++ "0"
  | Infinity s => sign_text s ++ "inf"
  | NaN s => sign_text s ++ "nan"
  | Finite s m e =>
      sign_text s ++
      (if (0 <=? e)%Z then format_g_pos (Zpos m * 2 ^ e) 1
       else format_g_pos (Zpos m) (2 ^ (- e)))
  end.

#[global] Instance insert_double : Inserter double :=
  fun stream d => stream ++ show d.

End Double.

Abbreviation double := Double.double.

(* ===================================================================== *)
(** ** Namespace [Svg] *)

Module Svg.

(** The double quote of the C++ literals. *)
Definition dq : string := String (ascii_of_nat 34) EmptyString.

(** *** Values *)

Record Point := { x : double; y : double }.

(** The default member initializers of [Point]. *)
Definition Point_ctor : Point := {| x := Double.zero; y := Double.zero |}.

Record Rgb := { red : ushort; green : ushort; blue : ushort }.

#[global] Instance insert_Rgb : Inserter Rgb :=
  fun stream val =>
    stream << "rgb(" << red val << ","%char
           << green val << ","%char
           << blue val << ")".

(** [optional<variant<string, Rgb>>]. *)
Record Color := { color_ : option (string + Rgb) }.

Definition Color_ctor : Color := {| color_ := None |}.
Definition Color_of_string (color : string) : Color :=
  {| color_ := Some (inl color) |}.
Definition Color_of_Rgb (color : Rgb) : Color :=
  {| color_ := Some (inr color) |}.

#[global] Instance insert_Color : Inserter Color :=
  fun stream val =>
    let getVal (var : string + Rgb) :=
      match var with
      | inl name => stream << name
      | inr rgb => stream << rgb
      end in
    match color_ val with
    | Some v => getVal v
    | None => stream << "none"
    end.

Definition NoneColor : Color := Color_ctor.

(** *** The base [Figure<Derived>] *)

Record Figure := {
  fillColor_ : Color;
  strokeColor_ : Color;
  strokeWidth_ : double;
  strokeLineCap_ : option string;
  strokeLineJoin_ : option string
}.

Definition Figure_ctor : Figure :=
  {| fillColor_ := NoneColor;
     strokeColor_ := NoneColor;
     strokeWidth_ := Double.one;
     strokeLineCap_ := None;
     strokeLineJoin_ := None |}.

(** A class derived from [Figure<Derived>]: access to the base subobject. *)
Class Derived (D : Type) := {
  figure : D -> Figure;
  with_figure : Figure -> D -> D
}.

Section FigureSetters.
Context {D : Type} `{Derived D}.

(** Each setter is [{ member = argument; return *this; }].  The
    functions below are the assignments, as functions on the state of
    the receiver; [Chained] further down adds the receiver's address and
    the returned reference. *)

Definition SetFillColor (color : Color) (this : D) : D :=
  let b := figure this in
  with_figure
    {| fillColor_ := color;
       strokeColor_ := strokeColor_ b;
       strokeWidth_ := strokeWidth_ b;
       strokeLineCap_ := strokeLineCap_ b;
       strokeLineJoin_ := strokeLineJoin_ b |} this.

(** The overload taking a [string]. *)
Definition SetFillColor_string (color : string) (this : D) : D :=
  let b := figure this in
  with_figure
    {| fillColor_ := Color_of_string color;
       strokeColor_ := strokeColor_ b;
       strokeWidth_ := strokeWidth_ b;
       strokeLineCap_ := strokeLineCap_ b;
       strokeLineJoin_ := strokeLineJoin_ b |} this.

Definition SetStrokeColor (color : Color) (this : D) : D :=
  let b := figure this in
  with_figure
    {| fillColor_ := fillColor_ b;
       strokeColor_ := color;
       strokeWidth_ := strokeWidth_ b;
       strokeLineCap_ := strokeLineCap_ b;
       strokeLineJoin_ := strokeLineJoin_ b |} this.

Definition SetStrokeWidth (width : double) (this : D) : D :=
  let b := figure this in
  with_figure
    {| fillColor_ := fillColor_ b;
       strokeColor_ := strokeColor_ b;
       strokeWidth_ := width;
       strokeLineCap_ := strokeLineCap_ b;
       strokeLineJoin_ := strokeLineJoin_ b |} this.

Definition SetStrokeLineCap (lineCap : string) (this : D) : D :=
  let b := figure this in
  with_figure
    {| fillColor_ := fillColor_ b;
       strokeColor_ := strokeColor_ b;
       strokeWidth_ := strokeWidth_ b;
       strokeLineCap_ := Some lineCap;
       strokeLineJoin_ := strokeLineJoin_ b |} this.

Definition SetStrokeLineJoin (lineJoin : string) (this : D) : D :=
  let b := figure this in
  with_figure
    {| fillColor_ := fillColor_ b;
       strokeColor_ := strokeColor_ b;
       strokeWidth_ := strokeWidth_ b;
       strokeLineCap_ := strokeLineCap_ b;
       strokeLineJoin_ := Some lineJoin |} this.

End FigureSetters.

(** The calls of the setters of the base class. *)
Inductive FigureCall :=
| CallSetFillColor (color : Color)
| CallSetFillColor_string (color : string)
| CallSetStrokeColor (color : Color)
| CallSetStrokeWidth (width : double)
| CallSetStrokeLineCap (lineCap : string)
| CallSetStrokeLineJoin (lineJoin : string).

Definition Figure_assign {D : Type} `{Derived D} (c : FigureCall) : D -> D :=
  match c with
  | CallSetFillColor color => SetFillColor color
  | CallSetFillColor_string color => SetFillColor_string color
  | CallSetStrokeColor color => SetStrokeColor color
  | CallSetStrokeWidth width => SetStrokeWidth width
  | CallSetStrokeLineCap lineCap => SetStrokeLineCap lineCap
  | CallSetStrokeLineJoin lineJoin => SetStrokeLineJoin lineJoin
  end.

(** A data member is either initialized or still indeterminate. *)
Inductive member (A : Type) :=
| Indeterminate
| Value (a : A).
Arguments Indeterminate {A}.
Arguments Value {A} a.

(** Reading a member for its value; undefined on an indeterminate one. *)
Definition read {A : Type} (m : member A) : option A :=
  match m with
  | Indeterminate => None
  | Value a => Some a
  end.

(** *** Circle *)

Record Circle := {
  Circle_base : Figure;
  centerX_ : double;
  centerY_ : double;
  radius_ : member double
}.

#[global] Instance Circle_Derived : Derived Circle := {
  figure := Circle_base;
  with_figure b this :=
    {| Circle_base := b;
       centerX_ := centerX_ this;
       centerY_ := centerY_ this;
       radius_ := radius_ this |}
}.

(** [Circle()]: the base, [centerX_(0.0)], [centerY_(0.0)]; the
    initializer list has no entry for [radius_]. *)
Definition Circle_ctor : Circle :=
  {| Circle_base := Figure_ctor;
     centerX_ := Double.zero;
     centerY_ := Double.zero;
     radius_ := Indeterminate |}.

Definition SetCenter (center : Point) (this : Circle) : Circle :=
  {| Circle_base := Circle_base this;
     centerX_ := x center;
     centerY_ := y center;
     radius_ := radius_ this |}.

Definition SetRadius (r : double) (this : Circle) : Circle :=
  {| Circle_base := Circle_base this;
     centerX_ := centerX_ this;
     centerY_ := centerY_ this;
     radius_ := Value r |}.

(** [operator<<(ostream&, const Circle&)]. *)
Definition insert_Circle (stream : ostream) (val : Circle) : option ostream :=
  let stream := stream << "<circle " in
  let stream := stream << "cx=" ++ dq << centerX_ val << dq ++ " "
                       << "cy=" ++ dq << centerY_ val << dq ++ " "
                       << "r=" ++ dq in
  radius ← read (radius_ val);
  let stream := stream << radius << dq ++ " "
                       << "fill=" ++ dq << fillColor_ (figure val) << dq ++ " "
                       << "stroke=" ++ dq << strokeColor_ (figure val) << dq ++ " "
                       << "stroke-width=" ++ dq << strokeWidth_ (figure val) << dq ++ " " in
  let stream :=
    match strokeLineCap_ (figure val) with
    | Some cap => stream << "stroke-linecap=" ++ dq << cap << dq ++ " "
    | None => stream
    end in
  let stream :=
    match strokeLineJoin_ (figure val) with
    | Some join => stream << "stroke-linejoin=" ++ dq << join << dq ++ " "
    | None => stream
    end in
  Some (stream << "/>").

(** *** Polyline *)

Record Polyline := {
  Polyline_base : Figure;
  points_ : list Point
}.

#[global] Instance Polyline_Derived : Derived Polyline := {
  figure := Polyline_base;
  with_figure b this := {| Polyline_base := b; points_ := points_ this |}
}.

Definition Polyline_ctor : Polyline :=
  {| Polyline_base := Figure_ctor; points_ := [] |}.

(** [points_.push_back(move(point))]. *)
Definition AddPoint (point : Point) (this : Polyline) : Polyline :=
  {| Polyline_base := Polyline_base this;
     points_ := (points_ this ++ [point])%list |}.

(** [operator<<(ostream&, const Polyline&)]. *)
#[global] Instance insert_Polyline : Inserter Polyline :=
  fun stream val =>
    let stream := stream << "<polyline points=" ++ dq in
    let stream :=
      fold_left
        (fun stream point => stream << x point << "," << y point << " ")
        (points_ val) stream in
    let stream := stream << dq ++ " "
                         << "fill=" ++ dq << fillColor_ (figure val) << dq ++ " "
                         << "stroke=" ++ dq << strokeColor_ (figure val) << dq ++ " "
                         << "stroke-width=" ++ dq << strokeWidth_ (figure val) << dq ++ " " in
    let stream :=
      match strokeLineCap_ (figure val) with
      | Some cap => stream << "stroke-linecap=" ++ dq << cap << dq ++ " "
      | None => stream
      end in
    let stream :=
      match strokeLineJoin_ (figure val) with
      | Some join => stream << "stroke-linejoin=" ++ dq << join << dq ++ " "
      | None => stream
      end in
    stream << "/>".

(** *** Text *)

Record Text := {
  Text_base : Figure;
  point_ : Point;
  offset_ : Point;
  fontSize_ : uint32_t;
  fontFamily_ : option string;
  data_ : string
}.

#[global] Instance Text_Derived : Derived Text := {
  figure := Text_base;
  with_figure b this :=
    {| Text_base := b;
       point_ := point_ this;
       offset_ := offset_ this;
       fontSize_ := fontSize_ this;
       fontFamily_ := fontFamily_ this;
       data_ := data_ this |}
}.

(** [Text()]: the base and [fontSize_(1)]; the other members are
    default-constructed. *)
Definition Text_ctor : Text :=
  {| Text_base := Figure_ctor;
     point_ := Point_ctor;
     offset_ := Point_ctor;
     fontSize_ := mk_uint32 1;
     fontFamily_ := None;
     data_ := EmptyString |}.

Definition SetPoint (point : Point) (this : Text) : Text :=
  {| Text_base := Text_base this;
     point_ := point;
     offset_ := offset_ this;
     fontSize_ := fontSize_ this;
     fontFamily_ := fontFamily_ this;
     data_ := data_ this |}.

Definition SetOffset (offset : Point) (this : Text) : Text :=
  {| Text_base := Text_base this;
     point_ := point_ this;
     offset_ := offset;
     fontSize_ := fontSize_ this;
     fontFamily_ := fontFamily_ this;
     data_ := data_ this |}.

Definition SetFontSize (size : uint32_t) (this : Text) : Text :=
  {| Text_base := Text_base this;
     point_ := point_ this;
     offset_ := offset_ this;
     fontSize_ := size;
     fontFamily_ := fontFamily_ this;
     data_ := data_ this |}.

Definition SetFontFamily (family : string) (this : Text) : Text :=
  {| Text_base := Text_base this;
     point_ := point_ this;
     offset_ := offset_ this;
     fontSize_ := fontSize_ this;
     fontFamily_ := Some family;
     data_ := data_ this |}.

Definition SetData (data : string) (this : Text) : Text :=
  {| Text_base := Text_base this;
     point_ := point_ this;
     offset_ := offset_ this;
     fontSize_ := fontSize_ this;
     fontFamily_ := fontFamily_ this;
     data_ := data |}.

(** [operator<<(ostream&, const Text&)]. *)
#[global] Instance insert_Text : Inserter Text :=
  fun stream val =>
    let stream := stream << "<text " in
    let stream := stream << "x=" ++ dq << x (point_ val) << dq ++ " "
                         << "y=" ++ dq << y (point_ val) << dq ++ " "
                         << "dx=" ++ dq << x (offset_ val) << dq ++ " "
                         << "dy=" ++ dq << y (offset_ val) << dq ++ " "
                         << "fill=" ++ dq << fillColor_ (figure val) << dq ++ " "
                         << "stroke=" ++ dq << strokeColor_ (figure val) << dq ++ " "
                         << "font-size=" ++ dq << fontSize_ val << dq ++ " "
                         << "stroke-width=" ++ dq << strokeWidth_ (figure val) << dq ++ " " in
    let stream :=
      match fontFamily_ val with
      | Some family => stream << "stroke-linejoin=" ++ dq << family << dq ++ " "
      | None => stream
      end in
    let stream :=
      match strokeLineCap_ (figure val) with
      | Some cap => stream << "stroke-linecap=" ++ dq << cap << dq ++ " "
      | None => stream
      end in
    let stream :=
      match strokeLineJoin_ (figure val) with
      | Some join => stream << "stroke-linejoin=" ++ dq << join << dq ++ " "
      | None => stream
      end in
    stream << ">" << data_ val << "</text>".

(** *** The calls of the setters of each shape *)

Inductive CircleCall :=
| Circle_Figure (c : FigureCall)
| CallSetCenter (center : Point)
| CallSetRadius (r : double).

Inductive PolylineCall :=
| Polyline_Figure (c : FigureCall)
| CallAddPoint (point : Point).

Inductive TextCall :=
| Text_Figure (c : FigureCall)
| CallSetPoint (point : Point)
| CallSetOffset (offset : Point)
| CallSetFontSize (size : uint32_t)
| CallSetFontFamily (family : string)
| CallSetData (data : string).

(** A shape: a class with chained setters. [assign c] is the assignment
    that the call [c] performs on its receiver. *)
Class Shape (T : Type) := {
  Call : Type;
  assign : Call -> T -> T
}.

#[global] Instance Circle_Shape : Shape Circle := {
  Call := CircleCall;
  assign c :=
    match c with
    | Circle_Figure c => Figure_assign c
    | CallSetCenter center => SetCenter center
    | CallSetRadius r => SetRadius r
    end
}.

#[global] Instance Polyline_Shape : Shape Polyline := {
  Call := PolylineCall;
  assign c :=
    match c with
    | Polyline_Figure c => Figure_assign c
    | CallAddPoint point => AddPoint point
    end
}.

#[global] Instance Text_Shape : Shape Text := {
  Call := TextCall;
  assign c :=
    match c with
    | Text_Figure c => Figure_assign c
    | CallSetPoint point => SetPoint point
    | CallSetOffset offset => SetOffset offset
    | CallSetFontSize size => SetFontSize size
    | CallSetFontFamily family => SetFontFamily family
    | CallSetData data => SetData data
    end
}.


(** *** Objects, references and chained calls *)

(** The address of an object. *)
Definition addr := nat.

Section Objects.
Context {T : Type}.

(** A member function running on a store of [T] objects: it may change
    the store and returns a value, and is undefined where it uses an
    address that holds no object. *)
Definition Method (A : Type) : Type := gmap addr T -> option (A * gmap addr T).

Definition ret {A : Type} (a : A) : Method A := fun h => Some (a, h).

Definition bind {A B : Type} (m : Method A) (k : A -> Method B) : Method B :=
  fun h =>
    match m h with
    | Some (a, h') => k a h'
    | None => None
    end.

(** [{ member = argument; return *this; }]: the assignment is made to
    the object at [this], and the reference returned is [this]. *)
Definition Chained (assignment : T -> T) (this : addr) : Method addr :=
  fun h =>
    match h !! this with
    | Some object => Some (this, <[this := assignment object]> h)
    | None => None
    end.

Context `{Shape T}.

(** One expression [r.Set1(a1).Set2(a2)...]: each call is made on the
    reference that the call before it returned. *)
Fixpoint chain (calls : list Call) (r : addr) : Method addr :=
  match calls with
  | [] => ret r
  | c :: calls' => bind (Chained (assign c) r) (chain calls')
  end.

(** The statements [shape.Set1(a1); shape.Set2(a2); ...]: each call is
    made on the variable [shape], its result discarded. *)
Fixpoint statements (calls : list Call) (shape : addr) : Method addr :=
  match calls with
  | [] => ret shape
  | c :: calls' =>
      bind (Chained (assign c) shape) (fun _ => statements calls' shape)
  end.

(** The assignments of a list of calls, made in order on one state. *)
Definition assign_all (calls : list Call) (object : T) : T :=
  fold_left (fun o c => assign c o) calls object.

End Objects.

Arguments Method : clear implicits.

(** *** Document *)

(** What a [unique_ptr<FigureInterface>] of the document points to: an
    object of one of the three classes that implement [print]. *)
Inductive FigureInterface :=
| of_Circle (c : Circle)
| of_Polyline (p : Polyline)
| of_Text (t : Text).

(** [make_unique<T>(move(figure))], converted to
    [unique_ptr<FigureInterface>]. *)
Class Printable (T : Type) := make_unique : T -> FigureInterface.

#[global] Instance Circle_Printable : Printable Circle := of_Circle.
#[global] Instance Polyline_Printable : Printable Polyline := of_Polyline.
#[global] Instance Text_Printable : Printable Text := of_Text.

(** [Figure<Derived>::print]: the inserter of the dynamic type.  The
    member function is not [const]: it is given the receiver and the stream
    and returns both. *)
Definition print (this : FigureInterface) (stream : ostream)
  : option (FigureInterface * ostream) :=
  match this with
  | of_Circle c => stream' ← insert_Circle stream c; Some (this, stream')
  | of_Polyline p => Some (this, stream << p)
  | of_Text t => Some (this, stream << t)
  end.

Record Document := { figures_ : list FigureInterface }.

Definition Document_ctor : Document := {| figures_ := [] |}.

(** [figures_.push_back(make_unique<T>(move(figure)))]. *)
Definition Add {T : Type} `{Printable T} (figure : T) (this : Document)
  : Document :=
  {| figures_ := (figures_ this ++ [make_unique figure])%list |}.


(** The loop of [Render]: [figure->print(out)] for each element, in the
    order of the vector. *)
Fixpoint print_each (figures : list FigureInterface) (out : ostream)
  : option (list FigureInterface * ostream) :=
  match figures with
  | [] => Some ([], out)
  | figure :: rest =>
      '(figure', out) ← print figure out;
      '(rest', out) ← print_each rest out;
      Some (figure' :: rest', out)
  end.

Definition xml_header : string :=
  "<?xml version=" ++ dq ++ "1.0" ++ dq ++ " encoding=" ++ dq ++ "UTF-8"
    ++ dq ++ " ?>".

Definition svg_open : string :=
  "<svg xmlns=" ++ dq ++ "http://www.w3.org/2000/svg" ++ dq ++ " version="
    ++ dq ++ "1.1" ++ dq ++ ">".

Definition svg_close : string := "</svg>".

(** [Document::Render]; not [const] either. *)
Definition Render (this : Document) (out : ostream)
  : option (Document * ostream) :=
  let out := out << xml_header << svg_open in
  '(figures, out) ← print_each (figures_ this) out;
  Some ({| figures_ := figures |}, out << svg_close).

(** *** The driver [main] *)

Definition pt (a b : Z) : Point := {| x := Double.of_Z a; y := Double.of_Z b |}.

Definition main_document : Document :=
  let svg := Document_ctor in
  let svg :=
    Add (AddPoint (pt 250 250)
          (AddPoint (pt 50 50)
            (SetStrokeLineCap "round"
              (SetStrokeWidth (Double.of_Z 16)
                (SetStrokeColor
                   (Color_of_Rgb {| red := to_ushort 255;
                                    green := to_ushort 198;
                                    blue := to_ushort 63 |})
                   Polyline_ctor))))) svg in
  let svg :=
    fold_left
      (fun svg point =>
         Add (SetCenter point
               (SetRadius (Double.of_Z 6)
                 (SetFillColor_string "white" Circle_ctor))) svg)
      [pt 50 50; pt 250 250] svg in
  let svg :=
    Add (SetData "C"
          (SetFillColor_string "black"
            (SetFontFamily "Verdana"
              (SetFontSize (to_uint32 20)
                (SetOffset (pt 10 (-10))
                  (SetPoint (pt 50 50) Text_ctor)))))) svg in
  Add (SetData "C++"
        (SetFillColor_string "black"
          (SetFontFamily "Verdana"
            (SetFontSize (to_uint32 20)
              (SetOffset (pt 10 (-10))
                (SetPoint (pt 250 250) Text_ctor)))))) svg.

End Svg.

Import Svg.

(* ===================================================================== *)
(** ** Vocabulary of the statements *)

(** The strings of a list, one after the other. *)
Fixpoint concat_all (l : list string) : string :=
  match l with
  | [] => EmptyString
  | s :: l' => s ++ concat_all l'
  end.

(** [sub] occurs in [s]. *)
Fixpoint contains (sub s : string) : bool :=
  String.prefix sub s ||
  match s with
  | EmptyString => false
  | String _ s' => contains sub s'
  end.

(** No character of [s] is a space. *)
Definition no_space (s : string) : Prop :=
  ~ In " "%char (list_ascii_of_string s).

(** The number that a decimal numeral denotes. *)
Definition undec (s : string) : option N :=
  option_map N.of_uint (NilZero.uint_of_string s).

(** The text that the inserter of a value writes. *)
Definition text_of {A : Type} `{Inserter A} (a : A) : string :=
  EmptyString << a.

(** One attribute of an element as the inserters write it: the name, the
    quoted value and a space. *)
Definition attribute : Type := string * string.

Definition attr (a : attribute) : string :=
  fst a ++ "=" ++ dq ++ snd a ++ dq ++ " ".

Definition attrs (l : list attribute) : string := concat_all (map attr l).

Definition names (l : list attribute) : list string := map fst l.

(** The values of the attributes called [name], in their order. *)
Definition values_of (name : string) (l : list attribute) : list string :=
  map snd (filter (fun a => String.eqb (fst a) name) l).

(** An optional attribute: written only when its member has a value. *)
Definition optional_attr (name : string) (o : option string) : list attribute :=
  match o with
  | Some v => [(name, v)]
  | None => []
  end.

(** The attributes of the style members of the base.  The two line
    attributes follow the three that are always written. *)
Definition paint_attributes (b : Figure) : list attribute :=
  [("fill", text_of (fillColor_ b)); ("stroke", text_of (strokeColor_ b))].

Definition width_attribute (b : Figure) : attribute :=
  ("stroke-width", Double.show (strokeWidth_ b)).

Definition line_attributes (b : Figure) : list attribute :=
  optional_attr "stroke-linecap" (strokeLineCap_ b) ++
  optional_attr "stroke-linejoin" (strokeLineJoin_ b).

(** The attribute lists of the three elements, in the order of §4.3-§4.5
    of the specification. *)
Definition Circle_attributes (c : Circle) (r : double) : list attribute :=
  [("cx", Double.show (centerX_ c)); ("cy", Double.show (centerY_ c));
   ("r", Double.show r)] ++
  paint_attributes (figure c) ++ [width_attribute (figure c)] ++
  line_attributes (figure c).

Definition point_text (p : Point) : string :=
  Double.show (x p) ++ "," ++ Double.show (y p) ++ " ".

Definition points_text (l : list Point) : string :=
  concat_all (map point_text l).

Definition Polyline_attributes (p : Polyline) : list attribute :=
  [("points", points_text (points_ p))] ++
  paint_attributes (figure p) ++ [width_attribute (figure p)] ++
  line_attributes (figure p).

Definition Text_attributes (t : Text) : list attribute :=
  [("x", Double.show (x (point_ t))); ("y", Double.show (y (point_ t)));
   ("dx", Double.show (x (offset_ t))); ("dy", Double.show (y (offset_ t)))] ++
  paint_attributes (figure t) ++
  [("font-size", dec (uint32_val (fontSize_ t)))] ++
  [width_attribute (figure t)] ++
  optional_attr "stroke-linejoin" (fontFamily_ t) ++
  line_attributes (figure t).

(** [fill="none" stroke="none" stroke-width="1"]. *)
Definition default_style_block : string :=
  "fill=" ++ dq ++ "none" ++ dq ++ " stroke=" ++ dq ++ "none" ++ dq ++
  " stroke-width=" ++ dq ++ "1" ++ dq.

(** The base subobject of the object behind a [FigureInterface]. *)
Definition figure_of (f : FigureInterface) : Figure :=
  match f with
  | of_Circle c => figure c
  | of_Polyline p => figure p
  | of_Text t => figure t
  end.

(** The element that [print] writes for a shape, when it is defined. *)
Definition serialization (f : FigureInterface) : option string :=
  snd <$> print f EmptyString.


(** The polyline after [AddPoint] of each point of a list, in order. *)
Definition AddPoints (pts : list Point) (p : Polyline) : Polyline :=
  fold_left (fun p point => AddPoint point p) pts p.

(** The shape is not a circle whose radius is still indeterminate. *)
Definition radius_set (f : FigureInterface) : Prop :=
  match f with
  | of_Circle c => radius_ c <> Indeterminate
  | _ => True
  end.

(** *** Vocabulary of the further properties *)

(** A decimal digit. *)
Definition is_digit (c : ascii) : bool :=
  (48 <=? nat_of_ascii c)%nat && (nat_of_ascii c <=? 57)%nat.

(** The start tag of a text element, up to the content. *)
Definition Text_opening (t : Text) : string :=
  "<text " ++ attrs (Text_attributes t) ++ ">".

(** The data member that a setter call assigns: calls with the same
    number assign the same member. *)
Definition Figure_slot (c : FigureCall) : nat :=
  match c with
  | CallSetFillColor _ | CallSetFillColor_string _ => 0
  | CallSetStrokeColor _ => 1
  | CallSetStrokeWidth _ => 2
  | CallSetStrokeLineCap _ => 3
  | CallSetStrokeLineJoin _ => 4
  end.

Definition Circle_slot (c : CircleCall) : nat :=
  match c with
  | Circle_Figure c => Figure_slot c
  | CallSetCenter _ => 5
  | CallSetRadius _ => 6
  end.

Definition Text_slot (c : TextCall) : nat :=
  match c with
  | Text_Figure c => Figure_slot c
  | CallSetPoint _ => 5
  | CallSetOffset _ => 6
  | CallSetFontSize _ => 7
  | CallSetFontFamily _ => 8
  | CallSetData _ => 9
  end.

(** The points of the [AddPoint] calls of a list of calls, in order. *)
Fixpoint added_points (calls : list PolylineCall) : list Point :=
  match calls with
  | [] => []
  | CallAddPoint point :: calls' => point :: added_points calls'
  | Polyline_Figure _ :: calls' => added_points calls'
  end.

(** The call is a [SetRadius]. *)
Definition is_SetRadius (c : CircleCall) : Prop :=
  match c with
  | CallSetRadius _ => True
  | _ => False
  end.

(** *** The data members of the shapes, as the setters assign them *)

(** The value of a data member. *)
Inductive member_value :=
| ColorValue (c : Color)
| DoubleValue (d : double)
| OptionalValue (s : option string)
| CenterValue (cx cy : double)
| RadiusValue (r : member double)
| PointsValue (l : list Point)
| PointValue (p : Point)
| SizeValue (n : uint32_t)
| StringValue (s : string).

(** The member of the base with a given number, numbered as [Figure_slot]
    numbers the calls; no member beyond the last. *)
Definition Figure_get (slot : nat) (b : Figure) : option member_value :=
  match slot with
  | 0 => Some (ColorValue (fillColor_ b))
  | 1 => Some (ColorValue (strokeColor_ b))
  | 2 => Some (DoubleValue (strokeWidth_ b))
  | 3 => Some (OptionalValue (strokeLineCap_ b))
  | 4 => Some (OptionalValue (strokeLineJoin_ b))
  | _ => None
  end.

(** The value that a call of a setter of the base passes for its member. *)
Definition Figure_value (c : FigureCall) : member_value :=
  match c with
  | CallSetFillColor color => ColorValue color
  | CallSetFillColor_string color => ColorValue (Color_of_string color)
  | CallSetStrokeColor color => ColorValue color
  | CallSetStrokeWidth width => DoubleValue width
  | CallSetStrokeLineCap lineCap => OptionalValue (Some lineCap)
  | CallSetStrokeLineJoin lineJoin => OptionalValue (Some lineJoin)
  end.

Definition Circle_get (slot : nat) (o : Circle) : option member_value :=
  match slot with
  | 5 => Some (CenterValue (centerX_ o) (centerY_ o))
  | 6 => Some (RadiusValue (radius_ o))
  | _ => Figure_get slot (figure o)
  end.

Definition Circle_value (c : CircleCall) (o : Circle) : member_value :=
  match c with
  | Circle_Figure c => Figure_value c
  | CallSetCenter center => CenterValue (x center) (y center)
  | CallSetRadius r => RadiusValue (Value r)
  end.

Definition Polyline_slot (c : PolylineCall) : nat :=
  match c with
  | Polyline_Figure c => Figure_slot c
  | CallAddPoint _ => 5
  end.

Definition Polyline_get (slot : nat) (o : Polyline) : option member_value :=
  match slot with
  | 5 => Some (PointsValue (points_ o))
  | _ => Figure_get slot (figure o)
  end.

(** [AddPoint] leaves in [points_] what it held, followed by the point. *)
Definition Polyline_value (c : PolylineCall) (o : Polyline) : member_value :=
  match c with
  | Polyline_Figure c => Figure_value c
  | CallAddPoint point => PointsValue (points_ o ++ [point])
  end.

Definition Text_get (slot : nat) (o : Text) : option member_value :=
  match slot with
  | 5 => Some (PointValue (point_ o))
  | 6 => Some (PointValue (offset_ o))
  | 7 => Some (SizeValue (fontSize_ o))
  | 8 => Some (OptionalValue (fontFamily_ o))
  | 9 => Some (StringValue (data_ o))
  | _ => Figure_get slot (figure o)
  end.

Definition Text_value (c : TextCall) (o : Text) : member_value :=
  match c with
  | Text_Figure c => Figure_value c
  | CallSetPoint point => PointValue point
  | CallSetOffset offset => PointValue offset
  | CallSetFontSize size => SizeValue size
  | CallSetFontFamily family => OptionalValue (Some family)
  | CallSetData data => StringValue data
  end.

(** The three classes of shapes, with their objects, their setter calls
    and their members. *)
Inductive ShapeClass := CircleClass | PolylineClass | TextClass.

Definition Object (k : ShapeClass) : Type :=
  match k with
  | CircleClass => Circle
  | PolylineClass => Polyline
  | TextClass => Text
  end.

Definition Shape_of (k : ShapeClass) : Shape (Object k) :=
  match k with
  | CircleClass => Circle_Shape
  | PolylineClass => Polyline_Shape
  | TextClass => Text_Shape
  end.

Definition Call_of (k : ShapeClass) : Type := @Call (Object k) (Shape_of k).

Definition assign_of (k : ShapeClass) (c : Call_of k) : Object k -> Object k :=
  @assign (Object k) (Shape_of k) c.

Definition slot_of (k : ShapeClass) : Call_of k -> nat :=
  match k with
  | CircleClass => Circle_slot
  | PolylineClass => Polyline_slot
  | TextClass => Text_slot
  end.

Definition get_of (k : ShapeClass) : nat -> Object k -> option member_value :=
  match k with
  | CircleClass => Circle_get
  | PolylineClass => Polyline_get
  | TextClass => Text_get
  end.

Definition value_of (k : ShapeClass) : Call_of k -> Object k -> member_value :=
  match k with
  | CircleClass => Circle_value
  | PolylineClass => Polyline_value
  | TextClass => Text_value
  end.

(* ===================================================================== *)
(** ** Strings *)

Lemma append_cons (ch : ascii) (a b : string) :
  String ch a ++ b = String ch (a ++ b).
Proof. reflexivity. Qed.

Lemma append_assoc (a b c : string) : (a ++ b) ++ c = a ++ (b ++ c).
Proof.
  induction a as [|ch a IH]; [reflexivity | exact (f_equal (String ch) IH)].
Qed.

Lemma append_nil_r (a : string) : a ++ EmptyString = a.
Proof.
  induction a as [|ch a IH]; [reflexivity | exact (f_equal (String ch) IH)].
Qed.

Lemma list_ascii_append (a b : string) :
  list_ascii_of_string (a ++ b) =
  (list_ascii_of_string a ++ list_ascii_of_string b)%list.
Proof.
  induction a as [|ch a IH]; [reflexivity|].
  rewrite append_cons. simpl. now rewrite IH.
Qed.

Lemma prefix_append (sub s : string) :
  String.prefix sub s = true <-> exists post, s = sub ++ post.
Proof.
  revert s; induction sub as [|c sub IH]; intros s.
  - destruct s; simpl; split; eauto.
  - destruct s as [|c' s]; simpl.
    + split; [discriminate | intros [post E]; discriminate].
    + destruct (ascii_dec c c') as [->|ne].
      * rewrite IH. split; intros [post E]; exists post.
        -- rewrite append_cons. now rewrite E.
        -- rewrite append_cons in E. now inversion E.
      * split; [discriminate|].
        intros [post E]. rewrite append_cons in E. congruence.
Qed.

Lemma contains_spec (sub s : string) :
  contains sub s = true <-> exists pre post, s = pre ++ sub ++ post.
Proof.
  induction s as [|c s IH].
  - cbn [contains]. rewrite orb_false_r, prefix_append. split.
    + intros [post E]. now exists EmptyString, post.
    + intros (pre & post & E). destruct pre; [now exists post | discriminate].
  - cbn [contains]. rewrite orb_true_iff, prefix_append, IH. split.
    + intros [[post E] | (pre & post & E)].
      * now exists EmptyString, post.
      * exists (String c pre), post. rewrite append_cons. now rewrite E.
    + intros (pre & post & E). destruct pre as [|c' pre].
      * left. now exists post.
      * right. exists pre, post. rewrite append_cons in E. now inversion E.
Qed.

Lemma concat_all_app (l1 l2 : list string) :
  concat_all (l1 ++ l2) = concat_all l1 ++ concat_all l2.
Proof.
  induction l1 as [|a l1 IH]; simpl; [reflexivity|].
  now rewrite IH, append_assoc.
Qed.

(** Right-nest every concatenation, then compare by computation. *)
Ltac string_eq :=
  repeat rewrite append_assoc; repeat rewrite append_nil_r; try reflexivity.

(* ===================================================================== *)
(** ** Decimal numerals *)

Lemma to_uint_nonnil (n : N) : N.to_uint n <> Decimal.Nil.
Proof.
  destruct n; [discriminate | apply DecimalPos.Unsigned.to_uint_nonnil].
Qed.

Lemma undec_dec (n : N) : undec (dec n) = Some n.
Proof.
  unfold undec, dec.
  rewrite NilZero.usu by apply to_uint_nonnil.
  simpl. now rewrite DecimalN.Unsigned.of_to.
Qed.

Lemma string_of_uint_no_space (d : Decimal.uint) :
  no_space (NilEmpty.string_of_uint d).
Proof.
  unfold no_space.
  induction d; simpl; try tauto;
    (intros [E | I]; [discriminate E | exact (IHd I)]).
Qed.

Lemma dec_no_space (n : N) : no_space (dec n).
Proof.
  unfold dec, NilZero.string_of_uint.
  destruct (N.to_uint n); try apply string_of_uint_no_space.
  unfold no_space; simpl. intros [E | []]. discriminate E.
Qed.

Lemma no_space_append (a b : string) :
  no_space a -> no_space b -> no_space (a ++ b).
Proof.
  unfold no_space. rewrite list_ascii_append, in_app_iff. tauto.
Qed.

Lemma to_ushort_range (z : Z) : (ushort_val (to_ushort z) <= ushort_max)%N.
Proof.
  unfold to_ushort, ushort_max; cbn [ushort_val].
  pose proof (Z.mod_pos_bound z 65536 eq_refl). lia.
Qed.

Lemma to_uint32_range (z : Z) : (uint32_val (to_uint32 z) <= uint32_max)%N.
Proof.
  unfold to_uint32, uint32_max; cbn [uint32_val].
  pose proof (Z.mod_pos_bound z 4294967296 eq_refl). lia.
Qed.

(* ===================================================================== *)
(** ** The default format of a double, on some values *)

Example show_integers :
  map Double.show (map Double.of_Z [0; 1; 6; 16; 50; 250; -10; 100000]%Z) =
  ["0"; "1"; "6"; "16"; "50"; "250"; "-10"; "100000"].
Proof. vm_compute. reflexivity. Qed.

Example show_six_digits :
  map Double.show
    [Double.of_Z 1000000; Double.of_Z 123456789;
     Double.Finite false 7205759403792794 (-56);
     Double.Finite false 6004799503160661 (-54);
     Double.Finite false 3 (-1);
     Double.Finite false 5902958103587057 (-69);
     Double.Finite false 8483866079657984 (-36);
     Double.Infinity false; Double.Infinity true;
     Double.NaN false; Double.NaN true; Double.Zero true] =
  ["1e+06"; "1.23457e+08"; "0.1"; "0.333333"; "1.5"; "1e-05"; "123456";
   "inf"; "-inf"; "nan"; "-nan"; "-0"].
Proof. vm_compute. reflexivity. Qed.

(* ===================================================================== *)
(** ** What the inserters append *)

Ltac unfold_inserters :=
  unfold Double.insert_double, insert_uint32, insert_ushort, insert_char,
    insert_string, insertion in *.

Lemma insert_Rgb_text (stream : ostream) (val : Rgb) :
  stream << val =
  stream ++ "rgb(" ++ dec (ushort_val (red val)) ++ "," ++
  dec (ushort_val (green val)) ++ "," ++ dec (ushort_val (blue val)) ++ ")".
Proof. unfold insertion at 1, insert_Rgb. unfold_inserters. string_eq. Qed.

Lemma insert_Color_text (stream : ostream) (val : Color) :
  stream << val = stream ++ text_of val.
Proof.
  destruct val as [[[name | rgb] |]];
    unfold text_of; unfold insertion, insert_Color, insert_Rgb; cbn [color_];
    unfold_inserters; string_eq.
Qed.

Lemma attrs_app (l1 l2 : list attribute) : attrs (l1 ++ l2) = attrs l1 ++ attrs l2.
Proof. unfold attrs. now rewrite map_app, concat_all_app. Qed.

Lemma insert_points (pts : list Point) (stream : ostream) :
  fold_left (fun stream point => stream << x point << "," << y point << " ")
    pts stream = stream ++ points_text pts.
Proof.
  revert stream; induction pts as [|point pts IH]; intros stream.
  - simpl. now rewrite append_nil_r.
  - cbn [fold_left]. rewrite IH. unfold points_text. cbn [map concat_all].
    unfold point_text. unfold_inserters. string_eq.
Qed.

Ltac unfold_attributes :=
  unfold Circle_attributes, Polyline_attributes, Text_attributes,
    paint_attributes, width_attribute, line_attributes.

Ltac compute_attributes :=
  unfold attrs, optional_attr, attr; cbn [map concat_all fst snd app].

Lemma insert_Circle_text (stream : ostream) (val : Circle) :
  insert_Circle stream val =
  r ← read (radius_ val);
  Some (stream ++ "<circle " ++ attrs (Circle_attributes val r) ++ "/>").
Proof.
  unfold insert_Circle. destruct (radius_ val) as [|r]; [reflexivity|].
  cbn [read mbind option_bind]. f_equal.
  rewrite !insert_Color_text. unfold_attributes.
  destruct (strokeLineCap_ (figure val)), (strokeLineJoin_ (figure val));
    compute_attributes; unfold_inserters; string_eq.
Qed.

Lemma insert_Polyline_text (stream : ostream) (val : Polyline) :
  stream << val = stream ++ "<polyline " ++ attrs (Polyline_attributes val) ++ "/>".
Proof.
  unfold insertion at 1. unfold insert_Polyline.
  rewrite insert_points, !insert_Color_text. unfold_attributes.
  destruct (strokeLineCap_ (figure val)), (strokeLineJoin_ (figure val));
    compute_attributes; unfold_inserters; string_eq.
Qed.

Lemma insert_Text_text (stream : ostream) (val : Text) :
  stream << val =
  stream ++ "<text " ++ attrs (Text_attributes val) ++ ">" ++ data_ val ++ "</text>".
Proof.
  unfold insertion at 1. unfold insert_Text.
  rewrite !insert_Color_text. unfold_attributes.
  destruct (fontFamily_ val), (strokeLineCap_ (figure val)),
    (strokeLineJoin_ (figure val));
    compute_attributes; unfold_inserters; string_eq.
Qed.

(* ===================================================================== *)
(** ** Colors *)

(** C4: a [Color] made from an [Rgb] triple is written as [rgb(r,g,b)]:
    the three channels as decimal numerals, separated by commas, without a
    space.  Each numeral denotes the channel value itself, whatever its
    size: nothing is clamped to 0-255. *)
Theorem Color_of_Rgb_text (rgb : Rgb) (stream : ostream) :
  stream << Color_of_Rgb rgb =
    stream ++ "rgb(" ++ dec (ushort_val (red rgb)) ++ "," ++
    dec (ushort_val (green rgb)) ++ "," ++ dec (ushort_val (blue rgb)) ++ ")"
  /\ undec (dec (ushort_val (red rgb))) = Some (ushort_val (red rgb))
  /\ undec (dec (ushort_val (green rgb))) = Some (ushort_val (green rgb))
  /\ undec (dec (ushort_val (blue rgb))) = Some (ushort_val (blue rgb))
  /\ no_space (text_of (Color_of_Rgb rgb)).
Proof.
  assert (E : forall s, s << Color_of_Rgb rgb = s << rgb) by reflexivity.
  repeat split; try apply undec_dec.
  - now rewrite E, insert_Rgb_text.
  - unfold text_of. rewrite E, insert_Rgb_text.
    repeat apply no_space_append; try apply dec_no_space;
      unfold no_space; simpl; intuition discriminate.
Qed.

Example Color_of_Rgb_wide :
  text_of (Color_of_Rgb {| red := to_ushort 255; green := to_ushort 256;
                           blue := to_ushort 65535 |}) = "rgb(255,256,65535)".
Proof. reflexivity. Qed.

(* ===================================================================== *)
(** ** Shapes: the element each inserter writes *)

Lemma serialization_Circle (c : Circle) :
  serialization (of_Circle c) =
  r ← read (radius_ c);
  Some ("<circle " ++ attrs (Circle_attributes c r) ++ "/>").
Proof.
  unfold serialization, print. rewrite insert_Circle_text.
  destruct (radius_ c); reflexivity.
Qed.

Lemma serialization_Polyline (p : Polyline) :
  serialization (of_Polyline p) =
  Some ("<polyline " ++ attrs (Polyline_attributes p) ++ "/>").
Proof.
  unfold serialization, print. now rewrite insert_Polyline_text.
Qed.

Lemma serialization_Text (t : Text) :
  serialization (of_Text t) =
  Some ("<text " ++ attrs (Text_attributes t) ++ ">" ++ data_ t ++ "</text>").
Proof.
  unfold serialization, print. now rewrite insert_Text_text.
Qed.

(** [print] leaves its receiver as it was and appends the element. *)
Lemma print_appends (f : FigureInterface) (stream : ostream) :
  print f stream = s ← serialization f; Some (f, stream ++ s).
Proof.
  destruct f as [c | p | t].
  - rewrite serialization_Circle. unfold print.
    rewrite insert_Circle_text. destruct (radius_ c); reflexivity.
  - rewrite serialization_Polyline. unfold print.
    now rewrite insert_Polyline_text.
  - rewrite serialization_Text. unfold print.
    now rewrite insert_Text_text.
Qed.

Lemma serialization_defined (f : FigureInterface) :
  radius_set f <-> exists s, serialization f = Some s.
Proof.
  destruct f as [c | p | t]; simpl.
  - rewrite serialization_Circle. destruct (radius_ c); simpl.
    + split; [congruence | intros [s E]; discriminate].
    + split; [eauto | discriminate].
  - rewrite serialization_Polyline. split; eauto.
  - rewrite serialization_Text. split; eauto.
Qed.

(** No call but [SetRadius] gives the radius a value. *)
Lemma radius_without_SetRadius (calls : list CircleCall) (c : Circle) :
  Forall (fun call => forall r, call <> CallSetRadius r) calls ->
  radius_ (@assign_all Circle Circle_Shape calls c) = radius_ c.
Proof.
  intros F. revert c. induction F as [|call calls N F IH]; intros c.
  - reflexivity.
  - unfold assign_all in *. cbn [fold_left]. rewrite IH.
    destruct call as [[]| |r]; try reflexivity.
    now destruct (N r).
Qed.

(** C10: the constructor of [Circle] leaves [radius_] indeterminate, and
    the inserter reads it: serializing [Circle{}] is undefined, it does
    not write [r="0"].  With the radius set, the center that the
    constructor did initialize is written as [cx="0" cy="0"]. *)
Theorem Circle_ctor_radius_indeterminate :
  radius_ Circle_ctor = Indeterminate
  /\ (forall stream, insert_Circle stream Circle_ctor = None)
  /\ (forall center stream,
        insert_Circle stream (SetCenter center Circle_ctor) = None)
  /\ (forall stream, print (of_Circle Circle_ctor) stream = None)
  /\ (forall stream, Render (Add Circle_ctor Document_ctor) stream = None)
  /\ serialization (of_Circle (SetRadius Double.zero Circle_ctor)) =
     Some ("<circle cx=" ++ dq ++ "0" ++ dq ++ " cy=" ++ dq ++ "0" ++ dq ++
           " r=" ++ dq ++ "0" ++ dq ++ " fill=" ++ dq ++ "none" ++ dq ++
           " stroke=" ++ dq ++ "none" ++ dq ++ " stroke-width=" ++ dq ++ "1" ++
           dq ++ " />").
Proof. repeat split. Qed.

(* ===================================================================== *)
(** ** Polyline *)

Lemma points_AddPoints (pts : list Point) (p : Polyline) :
  points_ (AddPoints pts p) = (points_ p ++ pts)%list.
Proof.
  revert p; induction pts as [|point pts IH]; intros p; simpl.
  - now rewrite app_nil_r.
  - rewrite IH. simpl. now rewrite <- app_assoc.
Qed.

(** C5: the [points] attribute of a polyline is the text [x,y ] of each
    of its points, one after the other, and the points are those of the
    [AddPoint] calls in the order of the calls.  Two points (50,50) and
    (250,250) give [50,50 250,250 ] with its trailing space; no point
    gives the empty value. *)
Theorem Polyline_points_attribute (p : Polyline) (stream : ostream) :
  stream << p =
    stream ++ "<polyline points=" ++ dq ++
    concat_all
      (map (fun point => Double.show (x point) ++ "," ++
                         Double.show (y point) ++ " ") (points_ p)) ++
    dq ++ " " ++
    attrs (paint_attributes (figure p) ++ [width_attribute (figure p)] ++
           line_attributes (figure p)) ++ "/>"
  /\ (forall pts, points_ (AddPoints pts p) = (points_ p ++ pts)%list)
  /\ text_of (AddPoints [pt 50 50; pt 250 250] Polyline_ctor) =
       "<polyline points=" ++ dq ++ "50,50 250,250 " ++ dq ++
       " fill=" ++ dq ++ "none" ++ dq ++ " stroke=" ++ dq ++ "none" ++ dq ++
       " stroke-width=" ++ dq ++ "1" ++ dq ++ " />"
  /\ text_of Polyline_ctor =
       "<polyline points=" ++ dq ++ dq ++
       " fill=" ++ dq ++ "none" ++ dq ++ " stroke=" ++ dq ++ "none" ++ dq ++
       " stroke-width=" ++ dq ++ "1" ++ dq ++ " />".
Proof.
  split; [|split; [|split]].
  - rewrite insert_Polyline_text. unfold Polyline_attributes.
    rewrite attrs_app. unfold attrs at 1, attr, points_text, point_text.
    cbn [map concat_all fst snd]. string_eq.
  - intros pts. apply points_AddPoints.
  - reflexivity.
  - reflexivity.
Qed.

(* ===================================================================== *)
(** ** Document *)



Lemma print_each_appends (figures : list FigureInterface) (out : ostream) :
  print_each figures out =
  texts ← mapM serialization figures;
  Some (figures, out ++ concat_all texts).
Proof.
  revert out; induction figures as [|f figures IH]; intros out.
  - simpl. now rewrite append_nil_r.
  - cbn [print_each mapM]. rewrite print_appends.
    destruct (serialization f) as [s|]; [|reflexivity].
    cbn [mbind option_bind]. rewrite IH.
    destruct (mapM serialization figures) as [texts|]; [|reflexivity].
    cbn. now rewrite append_assoc.
Qed.

Lemma Render_appends (d : Document) (out : ostream) :
  Render d out =
  texts ← mapM serialization (figures_ d);
  Some (d, out ++ xml_header ++ svg_open ++ concat_all texts ++ svg_close).
Proof.
  unfold Render. rewrite print_each_appends.
  destruct (mapM serialization (figures_ d)) as [texts|]; [|reflexivity].
  destruct d as [figures]. cbn [mbind option_bind figures_].
  unfold_inserters. do 2 f_equal. string_eq.
Qed.

Lemma mapM_serialization_None (l : list FigureInterface) :
  mapM serialization l = None ->
  Exists (fun f => exists c, f = of_Circle c /\ radius_ c = Indeterminate) l.
Proof.
  induction l as [|f l IH]; [discriminate|].
  cbn [mapM]. destruct (serialization f) as [s|] eqn:Ef.
  - cbn [mbind option_bind].
    destruct (mapM serialization l) as [texts|]; [discriminate|].
    intros _. apply Exists_cons_tl. now apply IH.
  - intros _. apply Exists_cons_hd.
    destruct f as [c | p | t].
    + exists c. split; [reflexivity|].
      rewrite serialization_Circle in Ef.
      destruct (radius_ c); [reflexivity | discriminate Ef].
    + rewrite serialization_Polyline in Ef. discriminate Ef.
    + rewrite serialization_Text in Ef. discriminate Ef.
Qed.

(** X9: a document either holds a circle whose radius is indeterminate,
    and then its render is undefined on every sink; or the radius of
    every circle is set, and then the render returns the document as it
    was and appends one and the same text to every sink. *)
Theorem Render_defined (d : Document) :
  (Exists (fun f => exists c, f = of_Circle c /\ radius_ c = Indeterminate)
     (figures_ d)
   /\ forall out, Render d out = None)
  \/
  (Forall radius_set (figures_ d)
   /\ exists written, forall out, Render d out = Some (d, out ++ written)).
Proof.
  destruct (mapM serialization (figures_ d)) as [texts|] eqn:M.
  - right. split.
    + assert (S : is_Some (mapM serialization (figures_ d))) by eauto.
      apply mapM_is_Some in S. eapply Forall_impl; [exact S|].
      intros f [s Ef]. apply serialization_defined. eauto.
    + eexists. intros out. rewrite Render_appends, M. reflexivity.
  - left. split.
    + now apply mapM_serialization_None.
    + intros out. rewrite Render_appends, M. reflexivity.
Qed.


(** C6: an empty document renders as the XML declaration followed by the
    empty root element, without any character in between. *)
Theorem Render_empty_document :
  Render Document_ctor EmptyString =
    Some (Document_ctor,
          "<?xml version=" ++ dq ++ "1.0" ++ dq ++ " encoding=" ++ dq ++
          "UTF-8" ++ dq ++ " ?><svg xmlns=" ++ dq ++
          "http://www.w3.org/2000/svg" ++ dq ++ " version=" ++ dq ++ "1.1" ++
          dq ++ "></svg>").
Proof. reflexivity. Qed.

(** C7: a render that is defined returns the document as it was, and a
    second render, made right after it, appends the same characters once
    more.  A render is undefined only where the document holds a circle
    whose radius is indeterminate. *)
Theorem Render_twice (d : Document) (out : ostream) :
  match Render d out with
  | Some (d1, out1) =>
      d1 = d /\
      exists written,
        out1 = out ++ written /\
        Render d1 out1 = Some (d1, out1 ++ written)
  | None =>
      exists c, In (of_Circle c) (figures_ d) /\ radius_ c = Indeterminate
  end.
Proof.
  rewrite Render_appends.
  destruct (mapM serialization (figures_ d)) as [texts|] eqn:E.
  - cbn [mbind option_bind]. split; [reflexivity|].
    eexists; split; [reflexivity|].
    rewrite Render_appends, E. reflexivity.
  - cbn [mbind option_bind].
    induction (figures_ d) as [|f l IH]; [discriminate E|].
    cbn [mapM] in E.
    destruct (serialization f) as [s|] eqn:Ef.
    + destruct (mapM serialization l) as [texts|]; [discriminate E|].
      destruct (IH eq_refl) as (c & I & R). exists c. split; [now right | exact R].
    + destruct f as [c | p | t].
      * exists c. split; [now left|].
        rewrite serialization_Circle in Ef.
        destruct (radius_ c); [reflexivity | discriminate Ef].
      * rewrite serialization_Polyline in Ef. discriminate Ef.
      * rewrite serialization_Text in Ef. discriminate Ef.
Qed.

(** X10: what [main] prints: the document of one polyline, two circles
    and two texts, element by element. *)
Example Render_main_document :
  snd <$> Render main_document EmptyString =
  Some (xml_header ++ svg_open ++
        "<polyline points=" ++ dq ++ "50,50 250,250 " ++ dq ++
        " fill=" ++ dq ++ "none" ++ dq ++
        " stroke=" ++ dq ++ "rgb(255,198,63)" ++ dq ++
        " stroke-width=" ++ dq ++ "16" ++ dq ++
        " stroke-linecap=" ++ dq ++ "round" ++ dq ++ " />" ++
        "<circle cx=" ++ dq ++ "50" ++ dq ++ " cy=" ++ dq ++ "50" ++ dq ++
        " r=" ++ dq ++ "6" ++ dq ++ " fill=" ++ dq ++ "white" ++ dq ++
        " stroke=" ++ dq ++ "none" ++ dq ++
        " stroke-width=" ++ dq ++ "1" ++ dq ++ " />" ++
        "<circle cx=" ++ dq ++ "250" ++ dq ++ " cy=" ++ dq ++ "250" ++ dq ++
        " r=" ++ dq ++ "6" ++ dq ++ " fill=" ++ dq ++ "white" ++ dq ++
        " stroke=" ++ dq ++ "none" ++ dq ++
        " stroke-width=" ++ dq ++ "1" ++ dq ++ " />" ++
        "<text x=" ++ dq ++ "50" ++ dq ++ " y=" ++ dq ++ "50" ++ dq ++
        " dx=" ++ dq ++ "10" ++ dq ++ " dy=" ++ dq ++ "-10" ++ dq ++
        " fill=" ++ dq ++ "black" ++ dq ++ " stroke=" ++ dq ++ "none" ++ dq ++
        " font-size=" ++ dq ++ "20" ++ dq ++
        " stroke-width=" ++ dq ++ "1" ++ dq ++
        " stroke-linejoin=" ++ dq ++ "Verdana" ++ dq ++ " >C</text>" ++
        "<text x=" ++ dq ++ "250" ++ dq ++ " y=" ++ dq ++ "250" ++ dq ++
        " dx=" ++ dq ++ "10" ++ dq ++ " dy=" ++ dq ++ "-10" ++ dq ++
        " fill=" ++ dq ++ "black" ++ dq ++ " stroke=" ++ dq ++ "none" ++ dq ++
        " font-size=" ++ dq ++ "20" ++ dq ++
        " stroke-width=" ++ dq ++ "1" ++ dq ++
        " stroke-linejoin=" ++ dq ++ "Verdana" ++ dq ++ " >C++</text>" ++
        svg_close).
Proof. vm_compute. reflexivity. Qed.

(* ===================================================================== *)
(** ** Text: the font family *)

(** C2: a text with a font family writes it as the value of an
    attribute named [stroke-linejoin], right after [stroke-width]; when
    the line join is set as well, the element has two attributes of that
    name: the first holds the font family, the second the line join. *)
Theorem Text_font_family_as_linejoin
  (t : Text) (family : string) (stream : ostream) :
  fontFamily_ t = Some family ->
  stream << t =
    stream ++ "<text " ++
    attrs [("x", Double.show (x (point_ t)));
           ("y", Double.show (y (point_ t)));
           ("dx", Double.show (x (offset_ t)));
           ("dy", Double.show (y (offset_ t)));
           ("fill", text_of (fillColor_ (figure t)));
           ("stroke", text_of (strokeColor_ (figure t)));
           ("font-size", dec (uint32_val (fontSize_ t)));
           ("stroke-width", Double.show (strokeWidth_ (figure t)))] ++
    "stroke-linejoin=" ++ dq ++ family ++ dq ++ " " ++
    attrs (optional_attr "stroke-linecap" (strokeLineCap_ (figure t))) ++
    attrs (optional_attr "stroke-linejoin" (strokeLineJoin_ (figure t))) ++
    ">" ++ data_ t ++ "</text>"
  /\ values_of "stroke-linejoin" (Text_attributes t) =
     family :: match strokeLineJoin_ (figure t) with
               | Some join => [join]
               | None => []
               end.
Proof.
  intros F. split.
  - rewrite insert_Text_text. unfold_attributes. rewrite F.
    destruct (strokeLineCap_ (figure t)), (strokeLineJoin_ (figure t));
      compute_attributes; string_eq.
  - unfold_attributes. rewrite F.
    destruct (strokeLineCap_ (figure t)), (strokeLineJoin_ (figure t));
      reflexivity.
Qed.

Lemma Text_font_family_as_linejoin_witness :
  let t := SetStrokeLineJoin "round" (SetFontFamily "Verdana" Text_ctor) in
  fontFamily_ t = Some "Verdana" /\
  values_of "stroke-linejoin" (Text_attributes t) = ["Verdana"; "round"].
Proof.
  split; [reflexivity|].
  destruct (Text_font_family_as_linejoin
              (SetStrokeLineJoin "round" (SetFontFamily "Verdana" Text_ctor))
              "Verdana" EmptyString) as [_ V]; [reflexivity | exact V].
Defined.

(* ===================================================================== *)
(** ** The style attributes *)

Lemma Text_ctor_text :
  serialization (of_Text Text_ctor) =
  Some ("<text x=" ++ dq ++ "0" ++ dq ++ " y=" ++ dq ++ "0" ++ dq ++
        " dx=" ++ dq ++ "0" ++ dq ++ " dy=" ++ dq ++ "0" ++ dq ++
        " fill=" ++ dq ++ "none" ++ dq ++ " stroke=" ++ dq ++ "none" ++ dq ++
        " font-size=" ++ dq ++ "1" ++ dq ++
        " stroke-width=" ++ dq ++ "1" ++ dq ++ " ></text>").
Proof. reflexivity. Qed.

Lemma Polyline_ctor_text :
  serialization (of_Polyline Polyline_ctor) =
  Some ("<polyline points=" ++ dq ++ dq ++
        " fill=" ++ dq ++ "none" ++ dq ++ " stroke=" ++ dq ++ "none" ++ dq ++
        " stroke-width=" ++ dq ++ "1" ++ dq ++ " />").
Proof. reflexivity. Qed.

(** C3, as stated, fails on texts.  [Text{}] has the default style, and
    its element does not contain [fill="none" stroke="none"
    stroke-width="1"], because [font-size] is written between [stroke] and
    [stroke-width]; and a text with a font family, its style still the
    default, has an attribute named [stroke-linejoin]. *)
Lemma Text_default_style_counterexample :
  figure_of (of_Text Text_ctor) = Figure_ctor
  /\ (exists s,
        serialization (of_Text Text_ctor) = Some s
        /\ ~ (exists pre post, s = pre ++ default_style_block ++ post))
  /\ figure_of (of_Text (SetFontFamily "Verdana" Text_ctor)) = Figure_ctor
  /\ (exists s,
        serialization (of_Text (SetFontFamily "Verdana" Text_ctor)) = Some s
        /\ exists pre post, s = pre ++ "stroke-linejoin=" ++ post).
Proof.
  split; [reflexivity|]. split.
  - eexists; split; [exact Text_ctor_text|].
    rewrite <- contains_spec. vm_compute. discriminate.
  - split; [reflexivity|].
    eexists; split; [reflexivity|].
    apply contains_spec. vm_compute. reflexivity.
Qed.

(** C3, amended: with the default style, a circle whose radius is set
    and a polyline are written as their geometry followed by [fill="none"
    stroke="none" stroke-width="1"] and the closing [/>], and nothing
    else: the inserter writes no [stroke-linecap] and no [stroke-linejoin]
    attribute.  A text is written as [x], [y], [dx], [dy], [fill="none"
    stroke="none"], its font size, [stroke-width="1"], then its font
    family, named [stroke-linejoin], if it has one, and nothing else
    before the [>] and the data. *)
Theorem default_style_attributes (f : FigureInterface) :
  figure_of f = Figure_ctor ->
  radius_set f ->
  match f with
  | of_Circle c =>
      exists r,
        radius_ c = Value r /\
        serialization f =
        Some ("<circle " ++
              attrs [("cx", Double.show (centerX_ c));
                     ("cy", Double.show (centerY_ c));
                     ("r", Double.show r)] ++
              default_style_block ++ " />")
  | of_Polyline p =>
      serialization f =
      Some ("<polyline " ++ attrs [("points", points_text (points_ p))] ++
            default_style_block ++ " />")
  | of_Text t =>
      serialization f =
      Some ("<text " ++
            attrs [("x", Double.show (x (point_ t)));
                   ("y", Double.show (y (point_ t)));
                   ("dx", Double.show (x (offset_ t)));
                   ("dy", Double.show (y (offset_ t)));
                   ("fill", "none"); ("stroke", "none");
                   ("font-size", dec (uint32_val (fontSize_ t)));
                   ("stroke-width", "1")] ++
            match fontFamily_ t with
            | Some family => "stroke-linejoin=" ++ dq ++ family ++ dq ++ " "
            | None => EmptyString
            end ++
            ">" ++ data_ t ++ "</text>")
  end.
Proof.
  intros B R. destruct f as [c | p | t]; cbn [figure_of] in B.
  - cbn [radius_set] in R. rewrite serialization_Circle.
    destruct (radius_ c) as [|r]; [congruence|].
    exists r. split; [reflexivity|].
    cbn [read mbind option_bind]. f_equal.
    unfold_attributes. rewrite B, attrs_app, append_assoc. reflexivity.
  - rewrite serialization_Polyline. f_equal.
    unfold_attributes. rewrite B, attrs_app, append_assoc. reflexivity.
  - rewrite serialization_Text. unfold_attributes. rewrite B.
    change (optional_attr "stroke-linecap" (strokeLineCap_ Figure_ctor) ++
            optional_attr "stroke-linejoin" (strokeLineJoin_ Figure_ctor))%list
      with (@nil attribute).
    rewrite app_nil_r. f_equal.
    destruct (fontFamily_ t); compute_attributes; string_eq.
Qed.

Lemma default_style_attributes_witness :
  figure_of (of_Text (SetData "C" (SetFontFamily "Verdana" Text_ctor))) =
    Figure_ctor
  /\ radius_set (of_Text (SetData "C" (SetFontFamily "Verdana" Text_ctor)))
  /\ serialization (of_Text (SetData "C" (SetFontFamily "Verdana" Text_ctor))) =
     Some ("<text x=" ++ dq ++ "0" ++ dq ++ " y=" ++ dq ++ "0" ++ dq ++
           " dx=" ++ dq ++ "0" ++ dq ++ " dy=" ++ dq ++ "0" ++ dq ++
           " fill=" ++ dq ++ "none" ++ dq ++ " stroke=" ++ dq ++ "none" ++ dq ++
           " font-size=" ++ dq ++ "1" ++ dq ++
           " stroke-width=" ++ dq ++ "1" ++ dq ++
           " stroke-linejoin=" ++ dq ++ "Verdana" ++ dq ++ " >C</text>").
Proof.
  split; [reflexivity|]. split; [exact I|].
  apply (default_style_attributes
           (of_Text (SetData "C" (SetFontFamily "Verdana" Text_ctor))));
    [reflexivity | exact I].
Defined.

(** C8, as stated, fails: [Polyline{}] has no line cap and no line
    join, and its element names neither [stroke-linecap] nor
    [stroke-linejoin]. *)
Lemma Polyline_ctor_omits_line_attributes :
  strokeLineCap_ (figure Polyline_ctor) = None
  /\ strokeLineJoin_ (figure Polyline_ctor) = None
  /\ exists s,
       serialization (of_Polyline Polyline_ctor) = Some s
       /\ ~ (exists pre post, s = pre ++ "stroke-linecap" ++ post)
       /\ ~ (exists pre post, s = pre ++ "stroke-linejoin" ++ post).
Proof.
  split; [reflexivity|]. split; [reflexivity|].
  eexists; split; [exact Polyline_ctor_text|].
  rewrite <- !contains_spec. split; vm_compute; discriminate.
Qed.

(** C8, amended: every shape (a circle once its radius is set) is
    written as its start, its attributes and its end, and the attributes
    are exactly these, in this order: the geometry; [fill] and [stroke],
    whatever their values; for a text its font size; [stroke-width],
    whatever its value; for a text its font family, if it has one;
    [stroke-linecap] if the line cap is set and nothing for it if not;
    [stroke-linejoin] if the line join is set and nothing for it if not. *)
Theorem style_attributes_in_order (f : FigureInterface) :
  radius_set f ->
  let b := figure_of f in
  let paint := [("fill", text_of (fillColor_ b));
                ("stroke", text_of (strokeColor_ b))] in
  let width := [("stroke-width", Double.show (strokeWidth_ b))] in
  let line :=
    (match strokeLineCap_ b with
     | Some cap => [("stroke-linecap", cap)]
     | None => []
     end ++
     match strokeLineJoin_ b with
     | Some join => [("stroke-linejoin", join)]
     | None => []
     end)%list in
  match f with
  | of_Circle c =>
      exists r,
        radius_ c = Value r /\
        serialization f =
        Some ("<circle " ++
              attrs ([("cx", Double.show (centerX_ c));
                      ("cy", Double.show (centerY_ c));
                      ("r", Double.show r)] ++ paint ++ width ++ line) ++
              "/>")
  | of_Polyline p =>
      serialization f =
      Some ("<polyline " ++
            attrs ([("points", points_text (points_ p))] ++
                   paint ++ width ++ line) ++
            "/>")
  | of_Text t =>
      serialization f =
      Some ("<text " ++
            attrs ([("x", Double.show (x (point_ t)));
                    ("y", Double.show (y (point_ t)));
                    ("dx", Double.show (x (offset_ t)));
                    ("dy", Double.show (y (offset_ t)))] ++
                   paint ++
                   [("font-size", dec (uint32_val (fontSize_ t)))] ++
                   width ++
                   match fontFamily_ t with
                   | Some family => [("stroke-linejoin", family)]
                   | None => []
                   end ++
                   line) ++
            ">" ++ data_ t ++ "</text>")
  end.
Proof.
  intros R b paint width line. subst b paint width line.
  destruct f as [c | p | t]; cbn [figure_of].
  - cbn [radius_set] in R. rewrite serialization_Circle.
    destruct (radius_ c) as [|r]; [congruence|].
    exists r. split; reflexivity.
  - rewrite serialization_Polyline. reflexivity.
  - rewrite serialization_Text. reflexivity.
Qed.

Lemma style_attributes_in_order_witness :
  radius_set (of_Polyline (SetStrokeLineCap "round" Polyline_ctor))
  /\ serialization (of_Polyline (SetStrokeLineCap "round" Polyline_ctor)) =
     Some ("<polyline points=" ++ dq ++ dq ++
           " fill=" ++ dq ++ "none" ++ dq ++ " stroke=" ++ dq ++ "none" ++ dq ++
           " stroke-width=" ++ dq ++ "1" ++ dq ++
           " stroke-linecap=" ++ dq ++ "round" ++ dq ++ " />").
Proof.
  split; [exact I|].
  pose proof (style_attributes_in_order
                (of_Polyline (SetStrokeLineCap "round" Polyline_ctor)) I) as E.
  cbv beta zeta iota in E. rewrite E. reflexivity.
Defined.

(* ===================================================================== *)
(** ** Chained setters *)

Section ChainedCalls.
Context {T : Type} `{Shape T}.

Lemma Chained_returns_this
  (assignment : T -> T) (this : addr) (h : gmap addr T) (object : T) :
  h !! this = Some object ->
  Chained assignment this h = Some (this, <[this := assignment object]> h).
Proof. intros L. unfold Chained. now rewrite L. Qed.

Lemma chain_assigns
  (calls : list Call) (this : addr) (h : gmap addr T) (object : T) :
  h !! this = Some object ->
  chain calls this h = Some (this, <[this := assign_all calls object]> h).
Proof.
  revert h object; induction calls as [|c calls IH]; intros h object L.
  - cbn [chain assign_all fold_left]. unfold ret. now rewrite insert_id.
  - cbn [chain]. unfold bind.
    rewrite (Chained_returns_this _ _ _ _ L).
    rewrite (IH _ (assign c object)) by apply lookup_insert_eq.
    now rewrite insert_insert_eq.
Qed.

Lemma statements_assign
  (calls : list Call) (shape : addr) (h : gmap addr T) (object : T) :
  h !! shape = Some object ->
  statements calls shape h =
  Some (shape, <[shape := assign_all calls object]> h).
Proof.
  revert h object; induction calls as [|c calls IH]; intros h object L.
  - cbn [statements assign_all fold_left]. unfold ret. now rewrite insert_id.
  - cbn [statements]. unfold bind.
    rewrite (Chained_returns_this _ _ _ _ L).
    rewrite (IH _ (assign c object)) by apply lookup_insert_eq.
    now rewrite insert_insert_eq.
Qed.

End ChainedCalls.

(** What each setter call assigns, member by member: the member of the
    call holds the value passed, every other member what it held. *)
Lemma assign_of_members (k : ShapeClass) (c : Call_of k) (o : Object k)
  (slot : nat) :
  get_of k slot (assign_of k c o) =
  if (slot =? slot_of k c)%nat then Some (value_of k c o) else get_of k slot o.
Proof.
  destruct k; [destruct c as [[]| |] | destruct c as [[]|]
              | destruct c as [[]| | | | |]];
    do 10 (destruct slot as [|slot]; [reflexivity|]); reflexivity.
Qed.

(** The members are the whole state of an object. *)
Lemma members_determine (k : ShapeClass) (o1 o2 : Object k) :
  (forall slot, get_of k slot o1 = get_of k slot o2) -> o1 = o2.
Proof.
  intros G.
  pose proof (G 0%nat) as G0. pose proof (G 1%nat) as G1.
  pose proof (G 2%nat) as G2. pose proof (G 3%nat) as G3.
  pose proof (G 4%nat) as G4. pose proof (G 5%nat) as G5.
  pose proof (G 6%nat) as G6. pose proof (G 7%nat) as G7.
  pose proof (G 8%nat) as G8. pose proof (G 9%nat) as G9.
  clear G.
  destruct k; destruct o1 as [[] ], o2 as [[] ]; cbn in *; congruence.
Qed.

(** C9: for each of the three classes and each setter of svg.cpp, a
    call assigns the value passed to the setter's member of the object
    it is called on, leaves the other members of that object as they
    were, and returns a reference to that same object.  So the chained
    expression [shape.Set1(a1).Set2(a2)...] and the statements
    [shape.Set1(a1); shape.Set2(a2); ...] leave the same store: the
    object at [shape] has received all the assignments in order, a later
    call working on the state that the earlier calls left, and every
    other object is as it was. *)
Theorem chained_setters
  (k : ShapeClass) (calls : list (Call_of k)) (shape : addr)
  (h : gmap addr (Object k)) (object : Object k) :
  h !! shape = Some object ->
  (forall c,
     Chained (assign_of k c) shape h =
       Some (shape, <[shape := assign_of k c object]> h)
     /\ forall slot,
          get_of k slot (assign_of k c object) =
          if (slot =? slot_of k c)%nat then Some (value_of k c object)
          else get_of k slot object)
  /\ (forall c1 c2,
        @chain (Object k) (Shape_of k) [c1; c2] shape h =
          Some (shape, <[shape := assign_of k c2 (assign_of k c1 object)]> h)
        /\ forall slot,
             get_of k slot (assign_of k c2 (assign_of k c1 object)) =
             if (slot =? slot_of k c2)%nat
             then Some (value_of k c2 (assign_of k c1 object))
             else if (slot =? slot_of k c1)%nat
                  then Some (value_of k c1 object)
                  else get_of k slot object)
  /\ (forall o1 o2,
        (forall slot, get_of k slot o1 = get_of k slot o2) -> o1 = o2)
  /\ @chain (Object k) (Shape_of k) calls shape h =
     @statements (Object k) (Shape_of k) calls shape h
  /\ @chain (Object k) (Shape_of k) calls shape h =
     Some (shape,
           <[shape := fold_left (fun o c => assign_of k c o) calls object]> h)
  /\ (forall h' r other,
        @chain (Object k) (Shape_of k) calls shape h = Some (r, h') ->
        r = shape /\ (other <> shape -> h' !! other = h !! other)).
Proof.
  intros L. repeat apply conj.
  - intros c. split.
    + now apply Chained_returns_this.
    + intros slot. apply assign_of_members.
  - intros c1 c2. split.
    + exact (@chain_assigns (Object k) (Shape_of k) [c1; c2] _ _ _ L).
    + intros slot. rewrite assign_of_members.
      destruct (slot =? slot_of k c2)%nat; [reflexivity|].
      apply assign_of_members.
  - apply members_determine.
  - now rewrite (@chain_assigns (Object k) (Shape_of k) _ _ _ _ L),
      (@statements_assign (Object k) (Shape_of k) _ _ _ _ L).
  - exact (@chain_assigns (Object k) (Shape_of k) _ _ _ _ L).
  - intros h' r other E.
    rewrite (@chain_assigns (Object k) (Shape_of k) _ _ _ _ L) in E.
    inversion E; subst. split; [reflexivity|].
    intros ne. now rewrite lookup_insert_ne.
Qed.

Lemma chained_setters_witness :
  let h : gmap addr Circle := {[ 7%nat := Circle_ctor ]} in
  h !! 7%nat = Some Circle_ctor
  /\ @chain Circle Circle_Shape
       [Circle_Figure (CallSetFillColor_string "white");
        CallSetRadius (Double.of_Z 6); CallSetCenter (pt 50 50)] 7%nat h =
     Some (7%nat,
           <[7%nat := SetCenter (pt 50 50)
                        (SetRadius (Double.of_Z 6)
                           (SetFillColor_string "white" Circle_ctor))]> h).
Proof.
  split; [reflexivity|].
  apply (chained_setters CircleClass
           [Circle_Figure (CallSetFillColor_string "white");
            CallSetRadius (Double.of_Z 6); CallSetCenter (pt 50 50)]
           7%nat {[ 7%nat := Circle_ctor ]} Circle_ctor).
  reflexivity.
Defined.

(* ===================================================================== *)
(** ** Further properties: the elements of a circle and of a text *)

(** X1: a circle whose radius is set is written as one [<circle .../>]
    element: [cx], [cy], [r], [fill], [stroke], [stroke-width], then
    [stroke-linecap] and [stroke-linejoin] where they are set, each
    attribute followed by a space; what the stream held stays in front. *)
Theorem Circle_element (c : Circle) (r : double) (stream : ostream) :
  radius_ c = Value r ->
  insert_Circle stream c =
  Some (stream ++
        "<circle cx=" ++ dq ++ Double.show (centerX_ c) ++ dq ++
        " cy=" ++ dq ++ Double.show (centerY_ c) ++ dq ++
        " r=" ++ dq ++ Double.show r ++ dq ++
        " fill=" ++ dq ++ text_of (fillColor_ (figure c)) ++ dq ++
        " stroke=" ++ dq ++ text_of (strokeColor_ (figure c)) ++ dq ++
        " stroke-width=" ++ dq ++ Double.show (strokeWidth_ (figure c)) ++
        dq ++ " " ++
        match strokeLineCap_ (figure c) with
        | Some cap => "stroke-linecap=" ++ dq ++ cap ++ dq ++ " "
        | None => EmptyString
        end ++
        match strokeLineJoin_ (figure c) with
        | Some join => "stroke-linejoin=" ++ dq ++ join ++ dq ++ " "
        | None => EmptyString
        end ++ "/>").
Proof.
  intros R. rewrite insert_Circle_text, R. cbn [read mbind option_bind].
  f_equal. unfold_attributes.
  destruct (strokeLineCap_ (figure c)), (strokeLineJoin_ (figure c));
    compute_attributes; string_eq.
Qed.

Lemma Circle_element_witness :
  radius_ (SetRadius (Double.of_Z 6) Circle_ctor) = Value (Double.of_Z 6)
  /\ insert_Circle EmptyString (SetRadius (Double.of_Z 6) Circle_ctor) =
     Some ("<circle cx=" ++ dq ++ "0" ++ dq ++ " cy=" ++ dq ++ "0" ++ dq ++
           " r=" ++ dq ++ "6" ++ dq ++ " fill=" ++ dq ++ "none" ++ dq ++
           " stroke=" ++ dq ++ "none" ++ dq ++ " stroke-width=" ++ dq ++ "1" ++
           dq ++ " />").
Proof.
  split; [reflexivity|].
  apply (Circle_element (SetRadius (Double.of_Z 6) Circle_ctor)
           (Double.of_Z 6) EmptyString).
  reflexivity.
Defined.

(** X2: a text in any state is written as one [<text ...>DATA</text>]
    element: [x], [y], [dx], [dy], [fill], [stroke], [font-size],
    [stroke-width], then the font family (named [stroke-linejoin]), the
    line cap and the line join where they are set, and the data as it is
    between the tags. *)
Theorem Text_element (t : Text) (stream : ostream) :
  stream << t =
  stream ++
  "<text x=" ++ dq ++ Double.show (x (point_ t)) ++ dq ++
  " y=" ++ dq ++ Double.show (y (point_ t)) ++ dq ++
  " dx=" ++ dq ++ Double.show (x (offset_ t)) ++ dq ++
  " dy=" ++ dq ++ Double.show (y (offset_ t)) ++ dq ++
  " fill=" ++ dq ++ text_of (fillColor_ (figure t)) ++ dq ++
  " stroke=" ++ dq ++ text_of (strokeColor_ (figure t)) ++ dq ++
  " font-size=" ++ dq ++ dec (uint32_val (fontSize_ t)) ++ dq ++
  " stroke-width=" ++ dq ++ Double.show (strokeWidth_ (figure t)) ++ dq ++
  " " ++
  match fontFamily_ t with
  | Some family => "stroke-linejoin=" ++ dq ++ family ++ dq ++ " "
  | None => EmptyString
  end ++
  match strokeLineCap_ (figure t) with
  | Some cap => "stroke-linecap=" ++ dq ++ cap ++ dq ++ " "
  | None => EmptyString
  end ++
  match strokeLineJoin_ (figure t) with
  | Some join => "stroke-linejoin=" ++ dq ++ join ++ dq ++ " "
  | None => EmptyString
  end ++ ">" ++ data_ t ++ "</text>".
Proof.
  rewrite insert_Text_text. unfold_attributes.
  destruct (fontFamily_ t), (strokeLineCap_ (figure t)),
    (strokeLineJoin_ (figure t));
    compute_attributes; string_eq.
Qed.

(* ===================================================================== *)
(** ** Further properties: colors *)

Lemma append_inv_head (a s1 s2 : string) : a ++ s1 = a ++ s2 -> s1 = s2.
Proof.
  induction a as [|ch a IH]; intros E; [exact E|].
  rewrite !append_cons in E. injection E as E. auto.
Qed.

(** A string is cut in one way only at the first occurrence of a
    character. *)
Lemma split_unique (c : ascii) (u u' s s' : string) :
  ~ In c (list_ascii_of_string u) ->
  ~ In c (list_ascii_of_string u') ->
  u ++ String c s = u' ++ String c s' ->
  u = u' /\ s = s'.
Proof.
  revert u'; induction u as [|a u IH]; intros [|a' u'] N N' E.
  - change (String c s = String c s') in E. injection E as E. auto.
  - change (String c s = String a' (u' ++ String c s')) in E.
    injection E as E _. destruct N'. left. now symmetry.
  - change (String a (u ++ String c s) = String c s') in E.
    injection E as E _. destruct N. now left.
  - rewrite !append_cons in E. injection E as Ea E.
    destruct (IH u') as [Eu Es]; try exact E.
    + intros I. apply N. now right.
    + intros I. apply N'. now right.
    + subst. auto.
Qed.

Lemma string_of_uint_digits (d : Decimal.uint) (c : ascii) :
  In c (list_ascii_of_string (NilEmpty.string_of_uint d)) -> is_digit c = true.
Proof.
  induction d; simpl; try tauto; (intros [<- | I]; [reflexivity | auto]).
Qed.

Lemma dec_digits (n : N) (c : ascii) :
  In c (list_ascii_of_string (dec n)) -> is_digit c = true.
Proof.
  unfold dec, NilZero.string_of_uint.
  destruct (N.to_uint n) eqn:E; try apply string_of_uint_digits.
  simpl. intros [<- | []]. reflexivity.
Qed.

Lemma dec_injective (n m : N) : dec n = dec m -> n = m.
Proof.
  intros E. apply (f_equal undec) in E. rewrite !undec_dec in E.
  now inversion E.
Qed.

Lemma dec_cut (c : ascii) (n m : N) (s s' : string) :
  is_digit c = false ->
  dec n ++ String c s = dec m ++ String c s' -> n = m /\ s = s'.
Proof.
  intros D E.
  destruct (split_unique c (dec n) (dec m) s s') as [En Es]; try exact E.
  - intros I. apply dec_digits in I. congruence.
  - intros I. apply dec_digits in I. congruence.
  - split; [now apply dec_injective | exact Es].
Qed.

(** X3: the text of an RGB color determines its three channels: two
    triples are written alike only if they are equal. *)
Theorem Color_of_Rgb_text_injective (a b : Rgb) :
  text_of (Color_of_Rgb a) = text_of (Color_of_Rgb b) <-> a = b.
Proof.
  split; [|now intros ->].
  assert (E : forall rgb s, s << Color_of_Rgb rgb = s << rgb) by reflexivity.
  unfold text_of. rewrite !E, !insert_Rgb_text.
  destruct a as [[ra] [ga] [ba]], b as [[rb] [gb] [bb]].
  cbn [red green blue ushort_val]. intros T.
  apply (append_inv_head EmptyString) in T.
  apply (append_inv_head "rgb(") in T.
  destruct (dec_cut ","%char ra rb
              (dec ga ++ "," ++ dec ba ++ ")") (dec gb ++ "," ++ dec bb ++ ")")
              eq_refl T) as [-> T1].
  destruct (dec_cut ","%char ga gb (dec ba ++ ")") (dec bb ++ ")")
              eq_refl T1) as [-> T2].
  destruct (dec_cut ")"%char ba bb EmptyString EmptyString eq_refl T2)
    as [-> _].
  reflexivity.
Qed.

(* ===================================================================== *)
(** ** Further properties: the data of a text is not escaped *)

Lemma mapM_serialization_snoc (l : list FigureInterface) (f : FigureInterface) :
  mapM serialization (l ++ [f]) =
  texts ← mapM serialization l;
  s ← serialization f;
  Some (texts ++ [s])%list.
Proof.
  induction l as [|g l IH].
  - cbn. destruct (serialization f); reflexivity.
  - cbn [app mapM]. rewrite IH.
    destruct (serialization g); [|reflexivity].
    cbn [mbind option_bind].
    destruct (mapM serialization l); [|reflexivity].
    cbn [mbind option_bind].
    destruct (serialization f); reflexivity.
Qed.

Lemma Render_Add_Text (t : Text) (d : Document) (out : ostream) :
  snd <$> Render (Add t d) out =
  texts ← mapM serialization (figures_ d);
  Some (out ++ xml_header ++ svg_open ++ concat_all texts ++
        text_of t ++ svg_close).
Proof.
  rewrite Render_appends.
  change (figures_ (Add t d)) with (figures_ d ++ [of_Text t])%list.
  rewrite mapM_serialization_snoc.
  destruct (mapM serialization (figures_ d)) as [texts|]; [|reflexivity].
  cbn [mbind option_bind].
  change (serialization (of_Text t)) with (Some (text_of t)).
  cbn. rewrite concat_all_app. cbn [concat_all]. do 2 f_equal. string_eq.
Qed.

(** X4: the data of a text is written between the tags as it is, so
    data that holds markup is markup in the output.  For any two texts,
    one text whose data is the data of the first, the end tag, the start
    tag of the second and the data of the second renders, in any
    document and on any sink, exactly as the two texts added one after
    the other. *)
Theorem Text_data_is_not_escaped
  (t1 t2 : Text) (d : Document) (out : ostream) :
  (forall t, text_of t = Text_opening t ++ data_ t ++ "</text>")
  /\ snd <$> Render
       (Add (SetData (data_ t1 ++ "</text>" ++ Text_opening t2 ++ data_ t2) t1)
          d) out =
     snd <$> Render (Add t2 (Add t1 d)) out
  /\ length (figures_ (Add t2 (Add t1 d))) =
     S (length
          (figures_
             (Add (SetData (data_ t1 ++ "</text>" ++ Text_opening t2 ++ data_ t2)
                     t1) d))).
Proof.
  assert (O : forall t, text_of t = Text_opening t ++ data_ t ++ "</text>").
  { intros t. unfold text_of, Text_opening. rewrite insert_Text_text.
    string_eq. }
  split; [exact O|].
  split; [|cbn [Add figures_ make_unique]; rewrite !length_app; simpl; lia].
  rewrite !Render_Add_Text.
  change (figures_ (Add t1 d)) with (figures_ d ++ [of_Text t1])%list.
  rewrite mapM_serialization_snoc.
  destruct (mapM serialization (figures_ d)) as [texts|]; [|reflexivity].
  cbn [mbind option_bind].
  change (serialization (of_Text t1)) with (Some (text_of t1)).
  cbn [mbind option_bind]. rewrite concat_all_app. cbn [concat_all].
  rewrite !O. cbn [SetData data_]. do 2 f_equal.
  change (Text_opening
            {| Text_base := Text_base t1; point_ := point_ t1;
               offset_ := offset_ t1; fontSize_ := fontSize_ t1;
               fontFamily_ := fontFamily_ t1;
               data_ := data_ t1 ++ "</text>" ++ Text_opening t2 ++ data_ t2 |})
    with (Text_opening t1).
  string_eq.
Qed.

(* ===================================================================== *)
(** ** Further properties: how setter calls compose *)

(** X5: on a circle, two setter calls that assign the same member leave
    what the later one assigned, and two calls that assign different
    members can be made in either order. *)
Theorem Circle_calls_compose (c1 c2 : CircleCall) (this : Circle) :
  if (Circle_slot c1 =? Circle_slot c2)%nat
  then @assign Circle Circle_Shape c2 (@assign Circle Circle_Shape c1 this) =
       @assign Circle Circle_Shape c2 this
  else @assign Circle Circle_Shape c2 (@assign Circle Circle_Shape c1 this) =
       @assign Circle Circle_Shape c1 (@assign Circle Circle_Shape c2 this).
Proof. destruct c1 as [[]| |], c2 as [[]| |]; reflexivity. Qed.

(** X6: on a text likewise: the later of two calls on one member wins,
    calls on different members commute. *)
Theorem Text_calls_compose (c1 c2 : TextCall) (this : Text) :
  if (Text_slot c1 =? Text_slot c2)%nat
  then @assign Text Text_Shape c2 (@assign Text Text_Shape c1 this) =
       @assign Text Text_Shape c2 this
  else @assign Text Text_Shape c2 (@assign Text Text_Shape c1 this) =
       @assign Text Text_Shape c1 (@assign Text Text_Shape c2 this).
Proof. destruct c1 as [[]| | | | |], c2 as [[]| | | | |]; reflexivity. Qed.

Lemma Polyline_call_points (c : PolylineCall) (p : Polyline) :
  points_ (@assign Polyline Polyline_Shape c p) =
  (points_ p ++ added_points [c])%list.
Proof.
  destruct c as [[]|point]; cbn; try reflexivity; now rewrite app_nil_r.
Qed.

(** X7: on a polyline, whatever style calls stand between them, the
    [AddPoint] calls append their points in the order of the calls: no
    call removes, replaces or reorders a point.  A style call and an
    [AddPoint] can be made in either order, and of two style calls on one
    member the later wins. *)
Theorem Polyline_calls_compose
  (calls : list PolylineCall) (c1 c2 : FigureCall) (point : Point)
  (this : Polyline) :
  points_ (@assign_all Polyline Polyline_Shape calls this) =
    (points_ this ++ added_points calls)%list
  /\ Figure_assign c1 (AddPoint point this) =
     AddPoint point (Figure_assign c1 this)
  /\ (if (Figure_slot c1 =? Figure_slot c2)%nat
      then Figure_assign c2 (Figure_assign c1 this) = Figure_assign c2 this
      else Figure_assign c2 (Figure_assign c1 this) =
           Figure_assign c1 (Figure_assign c2 this)).
Proof.
  split; [|split].
  - revert this. induction calls as [|c calls IH]; intros this.
    + cbn. now rewrite app_nil_r.
    + unfold assign_all in *. cbn [fold_left]. rewrite IH.
      rewrite Polyline_call_points.
      destruct c as [f|pt0]; cbn [added_points].
      * now rewrite app_nil_r.
      * now rewrite <- app_assoc.
  - destruct c1; reflexivity.
  - destruct c1, c2; reflexivity.
Qed.

Lemma radius_after_call (c : CircleCall) (this : Circle) :
  radius_ (@assign Circle Circle_Shape c this) <> Indeterminate <->
  radius_ this <> Indeterminate \/ is_SetRadius c.
Proof.
  destruct c as [[]| |r]; cbn; try tauto.
  split; [auto | discriminate].
Qed.

(** X8: a circle made from [Circle{}] by setter calls has a radius, and
    so a serialization, exactly when one of the calls is [SetRadius]. *)
Theorem Circle_serialized_iff_SetRadius (calls : list CircleCall) :
  (exists s,
     serialization
       (of_Circle (@assign_all Circle Circle_Shape calls Circle_ctor)) = Some s)
  <-> Exists is_SetRadius calls.
Proof.
  rewrite <- serialization_defined. cbn [radius_set].
  assert (G : forall this,
             radius_ (@assign_all Circle Circle_Shape calls this) <> Indeterminate
             <-> radius_ this <> Indeterminate \/ Exists is_SetRadius calls).
  { induction calls as [|c calls IH]; intros this.
    - cbn. rewrite Exists_nil. tauto.
    - unfold assign_all in *. cbn [fold_left].
      rewrite IH, radius_after_call, Exists_cons. tauto. }
  rewrite G. cbn. tauto.
Qed.
